(** * scene.py: sphere layout and camera timeline

    A shallow embedding of [scene.py].  The script sizes one sphere per entry
    of [DATA], lines the spheres up along the x axis and keyframes a camera
    that visits them in order.

    Numbers.  Dataset values and frame numbers are Python [int]s and are
    modelled as [Z].  Every quantity that comes out of the true division
    [value / max_value] is a Python [float].  The file has two readings of
    them.  In the main development they are exact rationals [Q], compared
    with [==], and the host's vectors are taken to store the numbers they are
    given.  The module [Binary64] runs the sizing and placement loop in
    IEEE 754 double precision, with Python's rounding, underflow and
    [OverflowError]; properties that rounding breaks are refuted there.

    Host.  The calls into the scene host ([bpy]) are modelled by the data they
    leave behind: a sphere is its name, scale and location; a camera is its
    location and the sequence of [keyframe_insert] calls made on it.
    The background plane is modelled by [setup_background]; it carries no
    state that the layout or the timeline reads back, so [script] does not
    thread it.  Labels, materials and lights are left out. *)

From Stdlib Require Import String ZArith QArith List Sorted Bool Lia Lqa.
From Stdlib Require Import SpecFloat.
Import ListNotations.

Local Open Scope Z_scope.

(** ** Python results *)

Module Py.

(** The exceptions the script can raise. *)
Inductive exn : Type :=
| ValueError          (* max() of an empty sequence *)
| ZeroDivisionError   (* value / 0 *)
| IndexError          (* spheres[0] of an empty list *)
| AttributeError.     (* camera.animation_data is None *)

Inductive result (A : Type) : Type :=
| Ok (a : A)
| Raise (e : exn).
Arguments Ok {A} a.
Arguments Raise {A} e.

Definition bind {A B} (r : result A) (k : A -> result B) : result B :=
  match r with
  | Ok a => k a
  | Raise e => Raise e
  end.

(** [max(xs)] on integers: the first largest item, [ValueError] when empty. *)
Definition max (xs : list Z) : result Z :=
  match xs with
  | [] => Raise ValueError
  | x :: rest => Ok (fold_left (fun m y => if m <? y then y else m) rest x)
  end.

(** [a / b] on integers is true division, here without rounding. *)
Definition truediv (a b : Z) : result Q :=
  if b =? 0 then Raise ZeroDivisionError
  else Ok (inject_Z a / inject_Z b)%Q.

(** [xs[-1]], for a list already known to be non-empty or not. *)
Fixpoint last {A} (xs : list A) : option A :=
  match xs with
  | [] => None
  | [x] => Some x
  | _ :: rest => last rest
  end.

End Py.

Import Py.

Notation "x <- r ;; k" := (Py.bind r (fun x => k))
  (at level 61, r at next level, right associativity).

(** ** Tunables *)

(** The module constants the algorithms read.  [DEFAULT_SEGMENTS] and
    [DEFAULT_RING_COUNT] only shape the mesh. *)
Record Tunables : Type := {
  SCALE_FACTOR : Z;
  FRAME_PAUSE : Z;
  FRAME_MOVE : Z
}.

Definition scene_py : Tunables :=
  {| SCALE_FACTOR := 2; FRAME_PAUSE := 24; FRAME_MOVE := 36 |}.

Definition DATA : list (string * Z) :=
  [ ("Mail", 2301); ("JobCreator", 2754); ("JobReadinessChecker", 2841);
    ("InfraFailureAnalysis", 5033); ("Orchestrator", 5058);
    ("DropLocationScanner", 8977); ("TestFailureAnalysis", 12174) ]%string.

(** ** Host objects *)

Definition vec3 : Type := Q * Q * Q.

Definition vx (v : vec3) : Q := fst (fst v).
Definition vy (v : vec3) : Q := snd (fst v).
Definition vz (v : vec3) : Q := snd v.

Record Sphere : Type := {
  sph_name : string;
  sph_scale : vec3;
  sph_location : vec3
}.

(** [sphere.scale[0]], which the script uses as the radius. *)
Definition radius (s : Sphere) : Q := vx (sph_scale s).

Inductive Interpolation : Type := HostDefault | BEZIER.

Record Keyframe : Type := {
  kf_frame : Z;
  kf_co : vec3;
  kf_interpolation : Interpolation
}.

Record Camera : Type := {
  cam_location : vec3;
  cam_keyframes : list Keyframe
}.

(** [add_sphere(name, scale, location)]: the sphere is created at [location],
    scaled uniformly, and then lifted so that [location[2] = scale]. *)
Definition add_sphere (name : string) (scale : Q) (location : vec3) : Sphere :=
  {| sph_name := name;
     sph_scale := (scale, scale, scale);
     sph_location := (vx location, vy location, scale) |}.

(** [bpy.ops.object.camera_add(location=...)]: a new camera, not animated. *)
Definition camera_add (location : vec3) : Camera :=
  {| cam_location := location; cam_keyframes := [] |}.

(** [create_camera(spheres)] *)
Definition create_camera (spheres : list Sphere) : result Camera :=
  match spheres with
  | [] => Raise IndexError
  | first :: _ =>
      let first_radius := radius first in
      Ok (camera_add (vx (sph_location first) + first_radius,
                      - first_radius * 10,
                      first_radius * (13 # 10))%Q)
  end.

Definition set_location (camera : Camera) (location : vec3) : Camera :=
  {| cam_location := location; cam_keyframes := cam_keyframes camera |}.

(** [camera.keyframe_insert(data_path="location", frame=frame)] records the
    camera's current location at [frame]. *)
Definition keyframe_insert (camera : Camera) (frame : Z) : Camera :=
  {| cam_location := cam_location camera;
     cam_keyframes := cam_keyframes camera ++
       [ {| kf_frame := frame; kf_co := cam_location camera;
            kf_interpolation := HostDefault |} ] |}.

(** ** animate_camera *)

Section Timeline.

Variable t : Tunables.

(** One turn of [for sphere in spheres], on [(current_frame, camera)]. *)
Definition animate_step (st : Z * Camera) (sphere : Sphere) : Z * Camera :=
  let '(current_frame, camera) := st in
  let sphere_radius := radius sphere in
  let camera := set_location camera
    (vx (sph_location sphere), - sphere_radius * 10,
     sphere_radius * (13 # 10))%Q in
  let camera := keyframe_insert camera current_frame in
  let current_frame := current_frame + FRAME_PAUSE t in
  let camera := keyframe_insert camera current_frame in
  let current_frame := current_frame + FRAME_MOVE t in
  (current_frame, camera).

Definition set_bezier (k : Keyframe) : Keyframe :=
  {| kf_frame := kf_frame k; kf_co := kf_co k; kf_interpolation := BEZIER |}.

(** [animate_camera(camera, spheres)] returns the animated camera and the
    value stored in [scene.frame_end].  A camera that was never keyframed
    has no animation data, and reading its curves fails. *)
Definition animate_camera (camera : Camera) (spheres : list Sphere)
  : result (Camera * Z) :=
  let current_frame := 1 in
  let '(current_frame, camera) :=
    fold_left animate_step spheres (current_frame, camera) in
  let frame_end := current_frame in
  match cam_keyframes camera with
  | [] => Raise AttributeError
  | keyframes =>
      Ok ({| cam_location := cam_location camera;
             cam_keyframes := map set_bezier keyframes |}, frame_end)
  end.

End Timeline.

(** ** The main loop *)

Section Layout.

Variable t : Tunables.

(** Lines 193-201 of one turn of [for name, value in DATA.items()], on
    [(x_position, spheres)], once [scale] is known. *)
Definition place (st : Q * list Sphere) (name : string) (scale : Q)
  : Q * list Sphere :=
  let '(x_position, spheres) := st in
  let x_position :=
    match Py.last spheres with
    | Some previous =>
        let previous_radius := radius previous in
        (x_position + (previous_radius + scale + previous_radius))%Q
    | None => x_position
    end in
  let sphere := add_sphere name scale (x_position, 0%Q, 0%Q) in
  (x_position, spheres ++ [sphere]).

(** The loop over [DATA.items()]: line 192 computes the scale, [place] does
    the rest. *)
Fixpoint for_items (max_value : Z) (items : list (string * Z))
    (st : Q * list Sphere) : result (Q * list Sphere) :=
  match items with
  | [] => Ok st
  | (name, value) :: rest =>
      q <- Py.truediv value max_value ;;
      let scale := (q * inject_Z (SCALE_FACTOR t))%Q in
      for_items max_value rest (place st name scale)
  end.

(** The placement part of the loop on its own, over items whose scale is
    already known: [layout] is [for_items] with line 192 taken out. *)
Definition layout_from (st : Q * list Sphere) (items : list (string * Q))
  : Q * list Sphere :=
  fold_left (fun st it => place st (fst it) (snd it)) items st.

Definition layout (items : list (string * Q)) : list Sphere :=
  snd (layout_from (0%Q, []) items).

Record Scene : Type := {
  scene_spheres : list Sphere;
  scene_x_position : Q;
  scene_camera : Camera;
  scene_frame_end : Z
}.

(** The script from line 186 on, without the labels (lines 198-199) and
    without [create_lights] and [setup_background] (lines 204-205). *)
Definition script (data : list (string * Z)) : result Scene :=
  max_value <- Py.max (map snd data) ;;
  st <- for_items max_value data (0%Q, []) ;;
  let '(x_position, spheres) := st in
  camera <- create_camera spheres ;;
  r <- animate_camera t camera spheres ;;
  let '(camera, frame_end) := r in
  Ok {| scene_spheres := spheres; scene_x_position := x_position;
        scene_camera := camera; scene_frame_end := frame_end |}.

End Layout.

(** ** Reference functions

    What the loops are shown to compute, written by recursion on their
    input. *)

Section Reference.

Variable t : Tunables.

Local Abbreviation pause := (FRAME_PAUSE t).
Local Abbreviation move := (FRAME_MOVE t).

(** Where the camera stands while it looks at [s]. *)
Definition framing (s : Sphere) : vec3 :=
  (vx (sph_location s), - radius s * 10, radius s * (13 # 10))%Q.

Definition key (frame : Z) (co : vec3) (i : Interpolation) : Keyframe :=
  {| kf_frame := frame; kf_co := co; kf_interpolation := i |}.

(** The keyframes a run of the loop adds when it starts at frame [f]. *)
Fixpoint holds (i : Interpolation) (f : Z) (spheres : list Sphere)
  : list Keyframe :=
  match spheres with
  | [] => []
  | s :: rest =>
      key f (framing s) i :: key (f + pause) (framing s) i
        :: holds i (f + pause + move) rest
  end.

(** [sphere.location[0]] *)
Definition x_of (s : Sphere) : Q := vx (sph_location s).

Local Open Scope Q_scope.

(** The spheres the loop appends when the last sphere so far is [previous]
    and the running position is [x_position]. *)
Fixpoint chain (previous : option Sphere) (x_position : Q)
    (items : list (string * Q)) : list Sphere :=
  match items with
  | [] => []
  | it :: rest =>
      let x_position :=
        match previous with
        | Some p => x_position + (radius p + snd it + radius p)
        | None => x_position
        end in
      let sphere := add_sphere (fst it) (snd it) (x_position, 0, 0) in
      sphere :: chain (Some sphere) x_position rest
  end.

(** An item with the scale line 192 gives it. *)
Definition scaled (max_value : Z) (it : string * Z) : string * Q :=
  (fst it, (inject_Z (snd it) / inject_Z max_value
            * inject_Z (SCALE_FACTOR t))%Q).

End Reference.

(** ** Example data *)

(** A three-sphere line-up used in the examples below. *)
Definition three_spheres : list Sphere :=
  layout [("A", 1%Q); ("B", 2%Q); ("C", 1 # 2)]%string.

Definition abc_items : list (string * Q) :=
  [("A", 1%Q); ("B", 2%Q); ("C", 1 # 2)]%string.

Definition abc_data : list (string * Z) :=
  [("A", 10); ("B", 20); ("C", 5)]%string%Z.

(** ** Background *)

(** Division of two floats: it raises on a zero divisor as well. *)
Definition float_truediv (a b : Q) : result Q :=
  if Qeq_bool b 0 then Raise ZeroDivisionError else Ok (a / b)%Q.

(** The background plane, without its rotation and material. *)
Record Plane : Type := {
  pl_location : vec3;
  pl_scale : vec3
}.

(** [setup_background(image_path, x_position)], on the size in pixels of the
    image that was loaded. *)
Definition setup_background (image_size : Z * Z) (x_position : Q)
  : result Plane :=
  aspect_ratio <- Py.truediv (fst image_size) (snd image_size) ;;
  let plane_width := (x_position * (25 # 10))%Q in
  plane_height <- float_truediv plane_width aspect_ratio ;;
  Ok {| pl_location :=
          (plane_width / 2 - plane_width * (1 # 10),
           x_position * 3,
           plane_height / 2 - plane_height * (1 # 10))%Q;
        pl_scale := (plane_width, plane_height, 1%Q) |}.


(** The same dataset with every value multiplied by [k]. *)
Definition times (k : Z) (data : list (string * Z)) : list (string * Z) :=
  map (fun it => (fst it, k * snd it)) data.

(** Two spheres with the same name, radius and [x]. *)
Definition same_sphere (a b : Sphere) : Prop :=
  sph_name a = sph_name b /\ (radius a == radius b)%Q /\ (x_of a == x_of b)%Q.

(** ** The loop in double precision *)



Module Binary64.

Inductive exn : Type :=
| ValueError          (* max() of an empty sequence *)
| ZeroDivisionError   (* value / 0 *)
| OverflowError.      (* a quotient or an int too large for a float *)

Inductive result (A : Type) : Type :=
| Ok (a : A)
| Raise (e : exn).
Arguments Ok {A} a.
Arguments Raise {A} e.

(** A Python [float]: sign, mantissa and exponent, or a zero, an infinity or
    a NaN. *)
Definition float : Type := spec_float.

Definition prec : Z := 53.
Definition emax : Z := 1024.

Definition zero : float := S754_zero false.

(** [a + b] and [a * b] on floats, rounded to nearest, ties to even. *)
Definition add : float -> float -> float := SFadd prec emax.
Definition mul : float -> float -> float := SFmul prec emax.


(** Python raises where the rounded result would be infinite. *)
Definition finite_or_overflow (f : float) : result float :=
  match f with
  | S754_infinity _ => Raise OverflowError
  | _ => Ok f
  end.

(** The conversion of an [int] operand of a float operation. *)
Definition of_int (z : Z) : result float :=
  finite_or_overflow (binary_normalize prec emax z 0 false).

(** An integer as an unrounded operand of the division. *)
Definition integer (z : Z) : float :=
  match z with
  | Z0 => S754_zero false
  | Zpos m => S754_finite false m 0
  | Zneg m => S754_finite true m 0
  end.

(** [a / b] on integers: the quotient of the two integers, rounded once. *)
Definition truediv (a b : Z) : result float :=
  if (b =? 0)%Z then Raise ZeroDivisionError
  else finite_or_overflow (SFdiv prec emax (integer a) (integer b)).

Definition max (xs : list Z) : result Z :=
  match Py.max xs with
  | Py.Ok m => Ok m
  | Py.Raise _ => Raise ValueError
  end.

Record Sphere : Type := {
  sph_name : string;
  sph_scale : float * float * float;
  sph_location : float * float * float
}.

Definition radius (s : Sphere) : float := fst (fst (sph_scale s)).

Definition x_of (s : Sphere) : float := fst (fst (sph_location s)).

Definition add_sphere (name : string) (scale : float)
    (location : float * float * float) : Sphere :=
  {| sph_name := name;
     sph_scale := (scale, scale, scale);
     sph_location := (fst (fst location), snd (fst location), scale) |}.

(** Lines 193-201, as [place] above. *)
Definition place (st : float * list Sphere) (name : string) (scale : float)
  : float * list Sphere :=
  let '(x_position, spheres) := st in
  let x_position :=
    match Py.last spheres with
    | Some previous =>
        let previous_radius := radius previous in
        add x_position (add (add previous_radius scale) previous_radius)
    | None => x_position
    end in
  let sphere := add_sphere name scale (x_position, zero, zero) in
  (x_position, spheres ++ [sphere]).

(** The loop over [DATA.items()]. *)
Fixpoint for_items (t : Tunables) (max_value : Z) (items : list (string * Z))
    (st : float * list Sphere) : result (float * list Sphere) :=
  match items with
  | [] => Ok st
  | (name, value) :: rest =>
      match truediv value max_value with
      | Raise e => Raise e
      | Ok q =>
          match of_int (SCALE_FACTOR t) with
          | Raise e => Raise e
          | Ok factor =>
              let scale := mul q factor in
              for_items t max_value rest (place st name scale)
          end
      end
  end.

(** The arithmetic of lines 186-197 and 201: the spheres and the running
    position they end with.  The label texts (lines 198-199) are left out. *)
Definition main_loop (t : Tunables) (data : list (string * Z))
  : result (float * list Sphere) :=
  match max (map snd data) with
  | Raise e => Raise e
  | Ok max_value => for_items t max_value data (zero, [])
  end.

End Binary64.

(** * Properties *)

(** ** The camera timeline *)

Section TimelineFacts.

Variable t : Tunables.

Local Abbreviation pause := (FRAME_PAUSE t).
Local Abbreviation move := (FRAME_MOVE t).

Lemma animate_loop (spheres : list Sphere) :
  forall f camera,
    fst (fold_left (animate_step t) spheres (f, camera)) =
      f + Z.of_nat (length spheres) * (pause + move) /\
    cam_keyframes (snd (fold_left (animate_step t) spheres (f, camera))) =
      cam_keyframes camera ++ holds t HostDefault f spheres.
Proof.
  induction spheres as [|s rest IH]; intros f camera; cbn [fold_left].
  - cbn. split; [lia | now rewrite app_nil_r].
  - change (animate_step t (f, camera) s)
      with (f + pause + move,
            keyframe_insert
              (keyframe_insert (set_location camera (framing s)) f)
              (f + pause)).
    destruct (IH (f + pause + move)
                (keyframe_insert
                   (keyframe_insert (set_location camera (framing s)) f)
                   (f + pause))) as [Hf Hk].
    split.
    + rewrite Hf. cbn [length]. lia.
    + rewrite Hk. cbn. rewrite <- !app_assoc. reflexivity.
Qed.

Lemma holds_bezier f spheres :
  map (set_bezier) (holds t HostDefault f spheres) = holds t BEZIER f spheres.
Proof.
  revert f; induction spheres as [|s rest IH]; intros f; cbn; [easy|].
  now rewrite IH.
Qed.

Lemma holds_length i f spheres :
  length (holds t i f spheres) = (2 * length spheres)%nat.
Proof.
  revert f; induction spheres as [|s rest IH]; intros f; cbn; [easy|].
  rewrite IH. lia.
Qed.

(** What [animate_camera] returns on a camera that has no keyframes yet. *)
Lemma animate_camera_fresh location s rest :
  animate_camera t (camera_add location) (s :: rest) =
    Ok ({| cam_location :=
             cam_location
               (snd (fold_left (animate_step t) (s :: rest)
                       (1, camera_add location)));
           cam_keyframes := holds t BEZIER 1 (s :: rest) |},
        1 + Z.of_nat (length (s :: rest)) * (pause + move)).
Proof.
  unfold animate_camera.
  destruct (animate_loop (s :: rest) 1 (camera_add location)) as [Hf Hk].
  destruct (fold_left _ _ _) as [f cam]. cbn [fst snd] in *.
  rewrite Hk, Hf. cbn [camera_add cam_keyframes app].
  rewrite <- (holds_bezier 1 (s :: rest)). reflexivity.
Qed.

Lemma animate_camera_empty camera :
  cam_keyframes camera = [] ->
  animate_camera t camera [] = Raise AttributeError.
Proof. unfold animate_camera; cbn. now intros ->. Qed.

(** The two keyframes of the [n]-th sphere. *)
Lemma holds_nth i spheres :
  forall f n s,
    nth_error spheres n = Some s ->
    nth_error (holds t i f spheres) (2 * n) =
      Some (key (f + Z.of_nat n * (pause + move)) (framing s) i) /\
    nth_error (holds t i f spheres) (2 * n + 1) =
      Some (key (f + Z.of_nat n * (pause + move) + pause) (framing s) i).
Proof.
  induction spheres as [|s0 rest IH]; intros f n s Hn.
  - destruct n; discriminate.
  - destruct n as [|n].
    + cbn in Hn. injection Hn as ->.
      replace (f + Z.of_nat 0 * (pause + move)) with f by lia.
      split; reflexivity.
    + cbn [nth_error] in Hn.
      destruct (IH (f + pause + move) n s Hn) as [H0 H1].
      replace (2 * S n)%nat with (S (S (2 * n))) by lia.
      replace (S (S (2 * n)) + 1)%nat with (S (S (2 * n + 1))) by lia.
      cbn [holds nth_error].
      replace (f + Z.of_nat (S n) * (pause + move))
        with (f + pause + move + Z.of_nat n * (pause + move)) by lia.
      now split.
Qed.

(** Frames go up along the track as soon as both phases take time. *)
Lemma holds_frames_sorted i spheres :
  0 < pause -> 0 < move ->
  forall f,
    StronglySorted Z.lt (map kf_frame (holds t i f spheres)) /\
    Forall (fun g => f <= g) (map kf_frame (holds t i f spheres)).
Proof.
  intros Hp Hm.
  induction spheres as [|s rest IH]; intros f; cbn.
  - split; constructor.
  - destruct (IH (f + pause + move)) as [Hs Hb].
    assert (Hb1 : Forall (fun g => f + pause < g)
                    (map kf_frame (holds t i (f + pause + move) rest))).
    { eapply Forall_impl; [|exact Hb]. cbn; intros; lia. }
    split.
    + constructor; [constructor; assumption|].
      constructor; [lia|].
      eapply Forall_impl; [|exact Hb1]. cbn; intros; lia.
    + constructor; [lia|]. constructor; [lia|].
      eapply Forall_impl; [|exact Hb1]. cbn; intros; lia.
Qed.

Lemma holds_last i spheres :
  forall f s, Py.last spheres = Some s ->
    Py.last (holds t i f spheres) =
      Some (key (f + (Z.of_nat (length spheres) - 1) * (pause + move) + pause)
                (framing s) i).
Proof.
  induction spheres as [|s0 rest IH]; intros f s Hl; [discriminate|].
  destruct rest as [|s1 rest'].
  - cbn in Hl. injection Hl as ->. cbn [holds Py.last].
    unfold key. do 2 f_equal. cbn [length]. lia.
  - change (Py.last (s0 :: s1 :: rest')) with (Py.last (s1 :: rest')) in Hl.
    specialize (IH (f + pause + move) s Hl).
    change (Py.last (holds t i f (s0 :: s1 :: rest')))
      with (Py.last (holds t i (f + pause + move) (s1 :: rest'))).
    rewrite IH. unfold key. do 2 f_equal.
    cbn [length]. lia.
Qed.

End TimelineFacts.

(** ** The layout *)

Section LayoutFacts.

Local Open Scope Q_scope.

Lemma last_snoc {A} (xs : list A) (x : A) : Py.last (xs ++ [x]) = Some x.
Proof.
  induction xs as [|y ys IH]; [reflexivity|].
  cbn [app]. destruct ys as [|z zs]; [reflexivity|].
  exact IH.
Qed.

Lemma layout_from_chain items :
  forall x_position spheres,
    snd (layout_from (x_position, spheres) items) =
      spheres ++ chain (Py.last spheres) x_position items.
Proof.
  induction items as [|it rest IH]; intros x spheres.
  - cbn. now rewrite app_nil_r.
  - unfold layout_from in *. cbn [fold_left].
    unfold place at 2. cbn [chain].
    rewrite IH, last_snoc, <- app_assoc. reflexivity.
Qed.

Lemma layout_chain items : layout items = chain None 0 items.
Proof. unfold layout. now rewrite layout_from_chain. Qed.

(** One sphere per item, in the order of the items. *)
Lemma chain_items items :
  forall previous x,
    Forall2 (fun it s =>
               sph_name s = fst it /\
               sph_scale s = (snd it, snd it, snd it) /\
               vy (sph_location s) = 0 /\
               vz (sph_location s) = snd it)
      items (chain previous x items).
Proof.
  induction items as [|it rest IH]; intros previous x; cbn [chain].
  - constructor.
  - constructor; [|apply IH]. cbn. auto.
Qed.

Lemma chain_length items previous x :
  length (chain previous x items) = length items.
Proof. symmetry. exact (Forall2_length (chain_items items previous x)). Qed.

Lemma chain_radius (P : Q -> Prop) items :
  Forall (fun it => P (snd it)) items ->
  forall previous x, Forall (fun s => P (radius s)) (chain previous x items).
Proof.
  induction 1 as [|it rest Hit _ IH]; intros previous x; cbn [chain].
  - constructor.
  - constructor; [exact Hit | apply IH].
Qed.



(** With no negative scale the spheres come in ascending [x]. *)
Lemma chain_ascending items :
  Forall (fun it => 0 <= snd it) items ->
  forall previous x,
    (forall p, previous = Some p -> 0 <= radius p) ->
    StronglySorted Qle (map x_of (chain previous x items)) /\
    Forall (fun y => x <= y) (map x_of (chain previous x items)).
Proof.
  induction 1 as [|it rest Hit _ IH]; intros previous x Hp; cbn [chain map].
  - split; constructor.
  - set (x' := match previous with
               | Some p => x + (radius p + snd it + radius p)
               | None => x
               end).
    assert (Hx : x <= x').
    { subst x'. destruct previous as [p|]; [|lra].
      specialize (Hp p eq_refl). lra. }
    destruct (IH (Some (add_sphere (fst it) (snd it) (x', 0, 0))) x')
      as [Hs Hb].
    { intros p [= <-]. exact Hit. }
    split.
    + constructor; [exact Hs|]. exact Hb.
    + constructor; [exact Hx|].
      eapply Forall_impl; [|exact Hb]. cbn; intros; lra.
Qed.

End LayoutFacts.

(** ** The script as a whole *)

Section ScriptFacts.

Variable t : Tunables.



Lemma max_nonempty x rest : exists m, Py.max (x :: rest) = Ok m.
Proof. eexists; reflexivity. Qed.

Lemma for_items_layout max_value items :
  max_value <> 0 ->
  forall st,
    for_items t max_value items st =
      Ok (layout_from st (map (scaled t max_value) items)).
Proof.
  intros Hm. induction items as [|[name value] rest IH]; intros st.
  - reflexivity.
  - cbn [for_items map]. unfold Py.truediv.
    destruct (Z.eqb_spec max_value 0) as [|_]; [contradiction|].
    cbn [Py.bind]. rewrite IH. reflexivity.
Qed.

Lemma for_items_zero items st :
  items <> [] -> for_items t 0 items st = Raise ZeroDivisionError.
Proof. destruct items as [|[name value] rest]; [congruence | reflexivity]. Qed.

(** On a dataset whose largest value is not zero the script runs to the
    end. *)
Lemma script_runs data max_value :
  data <> [] ->
  Py.max (map snd data) = Ok max_value ->
  max_value <> 0 ->
  exists scene,
    script t data = Ok scene /\
    scene_spheres scene = layout (map (scaled t max_value) data) /\
    cam_keyframes (scene_camera scene) =
      holds t BEZIER 1 (scene_spheres scene) /\
    scene_frame_end scene =
      1 + Z.of_nat (length data) * (FRAME_PAUSE t + FRAME_MOVE t).
Proof.
  intros Hne Hmax Hm. unfold script.
  rewrite Hmax. cbn [Py.bind].
  rewrite (for_items_layout max_value data Hm). cbn [Py.bind].
  pose proof (layout_from_chain (map (scaled t max_value) data) 0%Q [])
    as Hsnd.
  pose proof (layout_chain (map (scaled t max_value) data)) as Hlay.
  destruct (layout_from (0%Q, []) (map (scaled t max_value) data))
    as [x spheres].
  cbn [snd app Py.last] in Hsnd. subst spheres.
  destruct data as [|it rest]; [congruence|].
  cbn [map chain] in *.
  cbn [create_camera Py.bind].
  rewrite animate_camera_fresh. cbn [Py.bind].
  eexists. split; [reflexivity|].
  cbn [scene_spheres scene_camera scene_frame_end cam_keyframes].
  split; [now rewrite Hlay|]. split; [reflexivity|].
  cbn [length]. rewrite chain_length, length_map. reflexivity.
Qed.

End ScriptFacts.

Lemma last_cons {A} (x : A) (xs : list A) : exists z, Py.last (x :: xs) = Some z.
Proof.
  revert x. induction xs as [|y ys IH]; intros x.
  - now exists x.
  - exact (IH y).
Qed.

(** * The claims *)

(** ** Camera timeline *)

(** C2, as amended.  On [n >= 1] spheres [animate_camera] stores
    [1 + n * (FRAME_PAUSE + FRAME_MOVE)] in [scene.frame_end].  The last
    keyframe sits at frame [1 + (n-1) * (FRAME_PAUSE + FRAME_MOVE) +
    FRAME_PAUSE], and [frame_end] lies [FRAME_MOVE] frames after it. *)
Theorem animate_camera_frame_end (t : Tunables) (location : vec3)
    (spheres : list Sphere) :
  spheres <> [] ->
  let n := Z.of_nat (length spheres) in
  exists camera frame_end k,
    animate_camera t (camera_add location) spheres = Ok (camera, frame_end) /\
    frame_end = 1 + n * (FRAME_PAUSE t + FRAME_MOVE t) /\
    Py.last (cam_keyframes camera) = Some k /\
    kf_frame k = 1 + (n - 1) * (FRAME_PAUSE t + FRAME_MOVE t) + FRAME_PAUSE t /\
    frame_end = kf_frame k + FRAME_MOVE t.
Proof.
  intros Hne n.
  destruct spheres as [|s rest]; [congruence|].
  destruct (last_cons s rest) as [z Hlast].
  rewrite animate_camera_fresh.
  do 3 eexists. split; [reflexivity|].
  cbn [cam_keyframes]. split; [reflexivity|].
  split; [exact (holds_last t BEZIER (s :: rest) 1 z Hlast)|].
  cbn [kf_frame key]. fold n. split; lia.
Qed.

(** The amended C2 on three spheres with a hold of 24 and a move of 36
    frames: the last keyframe is at frame 145, the scene ends at 181. *)
Lemma animate_camera_frame_end_witness :
  three_spheres <> [] /\
  exists camera frame_end k,
    animate_camera scene_py (camera_add (0, 0, 0)%Q) three_spheres
      = Ok (camera, frame_end) /\
    frame_end = 1 + 3 * (24 + 36) /\
    Py.last (cam_keyframes camera) = Some k /\
    kf_frame k = 1 + (3 - 1) * (24 + 36) + 24 /\
    frame_end = kf_frame k + 36.
Proof.
  split.
  - discriminate.
  - apply (animate_camera_frame_end scene_py (0, 0, 0)%Q three_spheres).
    discriminate.
Defined.

(** C2 fails as stated: with three spheres, a hold of 24 and a move of 36
    frames, [frame_end] is 181; the claim's example says 145 and its closed
    form gives 144. *)
Lemma animate_camera_frame_end_counterexample :
  exists camera,
    animate_camera scene_py (camera_add (0, 0, 0)%Q) three_spheres
      = Ok (camera, 181) /\
    length three_spheres = 3%nat /\
    181 <> 145 /\
    181 <> (3 - 1) * (FRAME_PAUSE scene_py + FRAME_MOVE scene_py)
             + FRAME_PAUSE scene_py.
Proof.
  eexists. split; [reflexivity|].
  split; [reflexivity|]. split; discriminate.
Qed.

(** C4.  For the [i]-th sphere the camera gets two keyframes, at frame [f i]
    and at [f i + FRAME_PAUSE], both at
    [(x, - radius * 10, radius * 1.3)]; [f] starts at 1 and the next sphere's
    first keyframe comes [FRAME_MOVE] frames after the second one. *)
Theorem animate_camera_holds (t : Tunables) (location : vec3)
    (spheres : list Sphere) :
  spheres <> [] ->
  exists camera frame_end (f : nat -> Z),
    animate_camera t (camera_add location) spheres = Ok (camera, frame_end) /\
    f 0%nat = 1 /\
    (forall i, f (S i) = f i + FRAME_PAUSE t + FRAME_MOVE t) /\
    length (cam_keyframes camera) = (2 * length spheres)%nat /\
    forall i s,
      nth_error spheres i = Some s ->
      exists k1 k2,
        nth_error (cam_keyframes camera) (2 * i) = Some k1 /\
        nth_error (cam_keyframes camera) (2 * i + 1) = Some k2 /\
        kf_frame k1 = f i /\
        kf_frame k2 = f i + FRAME_PAUSE t /\
        kf_co k1 = (x_of s, - radius s * 10, radius s * (13 # 10))%Q /\
        kf_co k2 = (x_of s, - radius s * 10, radius s * (13 # 10))%Q.
Proof.
  intros Hne.
  destruct spheres as [|s0 rest]; [congruence|].
  rewrite animate_camera_fresh.
  exists {| cam_location :=
              cam_location
                (snd (fold_left (animate_step t) (s0 :: rest)
                        (1, camera_add location)));
            cam_keyframes := holds t BEZIER 1 (s0 :: rest) |}.
  eexists.
  exists (fun i => 1 + Z.of_nat i * (FRAME_PAUSE t + FRAME_MOVE t)).
  split; [reflexivity|]. split; [reflexivity|]. split; [intros; lia|].
  cbn [cam_keyframes]. split; [apply holds_length|].
  intros i s Hs.
  destruct (holds_nth t BEZIER (s0 :: rest) 1 i s Hs) as [H1 H2].
  do 2 eexists. split; [exact H1|]. split; [exact H2|].
  cbn [kf_frame kf_co key]. repeat split; reflexivity.
Qed.

Lemma animate_camera_holds_witness :
  three_spheres <> [] /\
  exists camera frame_end (f : nat -> Z),
    animate_camera scene_py (camera_add (0, 0, 0)%Q) three_spheres
      = Ok (camera, frame_end) /\
    f 0%nat = 1 /\
    (forall i, f (S i) = f i + 24 + 36) /\
    length (cam_keyframes camera) = (2 * length three_spheres)%nat /\
    forall i s,
      nth_error three_spheres i = Some s ->
      exists k1 k2,
        nth_error (cam_keyframes camera) (2 * i) = Some k1 /\
        nth_error (cam_keyframes camera) (2 * i + 1) = Some k2 /\
        kf_frame k1 = f i /\
        kf_frame k2 = f i + 24 /\
        kf_co k1 = (x_of s, - radius s * 10, radius s * (13 # 10))%Q /\
        kf_co k2 = (x_of s, - radius s * 10, radius s * (13 # 10))%Q.
Proof.
  split.
  - discriminate.
  - apply (animate_camera_holds scene_py (0, 0, 0)%Q three_spheres).
    discriminate.
Defined.

(** Frames of the track go up whenever both phases last at least a frame. *)
Lemma animate_camera_sorted (t : Tunables) location s rest :
  0 < FRAME_PAUSE t -> 0 < FRAME_MOVE t ->
  exists camera frame_end,
    animate_camera t (camera_add location) (s :: rest)
      = Ok (camera, frame_end) /\
    length (cam_keyframes camera) = (2 * length (s :: rest))%nat /\
    StronglySorted Z.lt (map kf_frame (cam_keyframes camera)).
Proof.
  intros Hp Hm. rewrite animate_camera_fresh.
  do 2 eexists. split; [reflexivity|]. cbn [cam_keyframes].
  split; [apply holds_length|].
  apply (holds_frames_sorted t BEZIER (s :: rest) Hp Hm 1).
Qed.

(** C5.  With the script's [FRAME_PAUSE = 24] and [FRAME_MOVE = 36], the
    camera of [n] spheres carries exactly [2n] keyframes and their frame
    numbers go strictly up.  The only run that returns no timeline is the one
    on no spheres at all. *)
Theorem animate_camera_keyframes_increasing (location : vec3)
    (spheres : list Sphere) :
  match animate_camera scene_py (camera_add location) spheres with
  | Ok (camera, _) =>
      length (cam_keyframes camera) = (2 * length spheres)%nat /\
      StronglySorted Z.lt (map kf_frame (cam_keyframes camera))
  | Raise _ => spheres = []
  end.
Proof.
  destruct spheres as [|s rest].
  - reflexivity.
  - destruct (animate_camera_sorted scene_py location s rest)
      as (camera & frame_end & -> & Hlen & Hsorted); [reflexivity..|].
    split; assumption.
Qed.

(** C10.  On [n >= 1] spheres the first keyframe is at frame 1 and
    [scene.frame_end] is [1 + n * (FRAME_PAUSE + FRAME_MOVE)]: the last hold,
    like every other, is followed by [FRAME_MOVE] frames. *)
Theorem animate_camera_trailing_move (t : Tunables) (location : vec3)
    (spheres : list Sphere) :
  spheres <> [] ->
  exists camera frame_end k0 k,
    animate_camera t (camera_add location) spheres = Ok (camera, frame_end) /\
    nth_error (cam_keyframes camera) 0 = Some k0 /\
    kf_frame k0 = 1 /\
    frame_end =
      1 + Z.of_nat (length spheres) * (FRAME_PAUSE t + FRAME_MOVE t) /\
    Py.last (cam_keyframes camera) = Some k /\
    frame_end = kf_frame k + FRAME_MOVE t.
Proof.
  intros Hne.
  destruct spheres as [|s rest]; [congruence|].
  destruct (last_cons s rest) as [z Hlast].
  rewrite animate_camera_fresh.
  do 4 eexists. split; [reflexivity|].
  cbn [cam_keyframes]. split; [reflexivity|].
  split; [reflexivity|]. split; [reflexivity|].
  split; [exact (holds_last t BEZIER (s :: rest) 1 z Hlast)|].
  cbn [kf_frame key]. lia.
Qed.

Lemma animate_camera_trailing_move_witness :
  three_spheres <> [] /\
  exists camera frame_end k0 k,
    animate_camera scene_py (camera_add (0, 0, 0)%Q) three_spheres
      = Ok (camera, frame_end) /\
    nth_error (cam_keyframes camera) 0 = Some k0 /\
    kf_frame k0 = 1 /\
    frame_end = 1 + Z.of_nat (length three_spheres) * (24 + 36) /\
    Py.last (cam_keyframes camera) = Some k /\
    frame_end = kf_frame k + 36.
Proof.
  split.
  - discriminate.
  - apply (animate_camera_trailing_move scene_py (0, 0, 0)%Q three_spheres).
    discriminate.
Defined.

(** ** Layout *)

Local Open Scope Q_scope.





(** C6 does not hold for every dataset: with the values -30 and 10 the
    script puts the second sphere at [x = -10], left of the first one. *)
Lemma script_descending_counterexample :
  exists scene a b,
    script scene_py [("A", -30); ("B", 10)]%string%Z = Ok scene /\
    nth_error (scene_spheres scene) 0 = Some a /\
    nth_error (scene_spheres scene) 1 = Some b /\
    x_of a == 0 /\ x_of b == -10 /\ x_of b < x_of a.
Proof.
  do 3 eexists. split; [vm_compute; reflexivity|].
  cbn [scene_spheres nth_error].
  split; [reflexivity|]. split; [reflexivity|].
  vm_compute. repeat split; discriminate.
Qed.

(** C6, as amended.  Every sphere of the layout has [y = 0] and [z] equal to
    its own scale; when no scale is negative the spheres come in ascending
    [x]. *)
Theorem layout_ground_and_order (items : list (string * Q)) :
  Forall (fun s => vy (sph_location s) = 0 /\ vz (sph_location s) = radius s)
    (layout items) /\
  (Forall (fun it => 0 <= snd it) items ->
   StronglySorted Qle (map x_of (layout items))).
Proof.
  rewrite layout_chain. split.
  - pose proof (chain_items items None 0) as H.
    induction H as [|it s its ss (_ & Hs & Hy & Hz) _ IH]; constructor.
    + split; [exact Hy|]. unfold radius. now rewrite Hs, Hz.
    + exact IH.
  - intros Hnn. apply (chain_ascending items Hnn None 0). discriminate.
Qed.

Lemma layout_ground_and_order_witness :
  Forall (fun it => 0 <= snd it) abc_items /\
  Forall (fun s => vy (sph_location s) = 0 /\ vz (sph_location s) = radius s)
    (layout abc_items) /\
  StronglySorted Qle (map x_of (layout abc_items)).
Proof.
  assert (H : Forall (fun it => 0 <= snd it) abc_items).
  { repeat constructor; discriminate. }
  split; [exact H|].
  split.
  - exact (proj1 (layout_ground_and_order abc_items)).
  - exact (proj2 (layout_ground_and_order abc_items) H).
Defined.

(** ** Sizes *)








(** C8.  On an empty dataset the script stops at [max(DATA.values())], which
    raises for want of a maximum; no sphere is made. *)
Theorem script_empty_dataset (t : Tunables) :
  Py.max (map snd (@nil (string * Z))) = Raise ValueError /\
  script t [] = Raise ValueError.
Proof. split; reflexivity. Qed.

(** C9.  On [{A: 10, B: 20, C: 5}] with [SCALE_FACTOR = 2] the scales are
    1, 2 and 1/2, and the spheres stand at [x = 0], [4] and [17/2]. *)
Theorem script_abc :
  exists scene,
    script scene_py abc_data = Ok scene /\
    map sph_name (scene_spheres scene) = ["A"; "B"; "C"]%string /\
    Forall2 Qeq (map radius (scene_spheres scene)) [1; 2; 1 # 2] /\
    Forall2 Qeq (map x_of (scene_spheres scene)) [0; 4; 17 # 2].
Proof.
  eexists. split; [vm_compute; reflexivity|].
  cbn [scene_spheres map sph_name].
  split; [reflexivity|].
  split; repeat constructor.
Qed.

(** * Further properties of the script *)

(** ** More on the camera *)

Local Open Scope Z_scope.

(** After the loop the camera stands where the last sphere put it. *)
Lemma animate_loop_location (t : Tunables) (spheres : list Sphere) :
  forall f camera,
    cam_location (snd (fold_left (animate_step t) spheres (f, camera))) =
      match Py.last spheres with
      | Some s => framing s
      | None => cam_location camera
      end.
Proof.
  induction spheres as [|s rest IH]; intros f camera; [reflexivity|].
  cbn [fold_left].
  change (animate_step t (f, camera) s)
    with (f + FRAME_PAUSE t + FRAME_MOVE t,
          keyframe_insert
            (keyframe_insert (set_location camera (framing s)) f)
            (f + FRAME_PAUSE t)).
  rewrite IH. destruct rest as [|r rest']; [reflexivity|].
  change (Py.last (s :: r :: rest')) with (Py.last (r :: rest')).
  destruct (last_cons r rest') as [z ->]. reflexivity.
Qed.

(** X1.  Where the camera is created plays no part in the animation:
    [animate_camera] moves it before the first keyframe is taken, so two new
    cameras give the same result whatever their locations. *)
Theorem animate_camera_ignores_start (t : Tunables) (l1 l2 : vec3)
    (spheres : list Sphere) :
  animate_camera t (camera_add l1) spheres =
  animate_camera t (camera_add l2) spheres.
Proof.
  destruct spheres as [|s rest]; [reflexivity|].
  rewrite !animate_camera_fresh, !animate_loop_location.
  destruct (last_cons s rest) as [z ->]. reflexivity.
Qed.

(** X2.  When [animate_camera] is done, the camera stands in front of the
    last sphere, at [(x, - radius * 10, radius * 1.3)]. *)
Theorem animate_camera_final_location (t : Tunables) (location : vec3)
    (spheres : list Sphere) :
  spheres <> [] ->
  exists camera frame_end s,
    animate_camera t (camera_add location) spheres = Ok (camera, frame_end) /\
    Py.last spheres = Some s /\
    cam_location camera =
      (x_of s, - radius s * 10, radius s * (13 # 10))%Q.
Proof.
  intros Hne. destruct spheres as [|s0 rest]; [congruence|].
  destruct (last_cons s0 rest) as [z Hz].
  rewrite animate_camera_fresh, animate_loop_location, Hz.
  do 3 eexists. split; [reflexivity|]. split; reflexivity.
Qed.

Lemma animate_camera_final_location_witness :
  three_spheres <> [] /\
  exists camera frame_end s,
    animate_camera scene_py (camera_add (0, 0, 0)%Q) three_spheres
      = Ok (camera, frame_end) /\
    Py.last three_spheres = Some s /\
    cam_location camera =
      (x_of s, - radius s * 10, radius s * (13 # 10))%Q.
Proof.
  split.
  - discriminate.
  - apply (animate_camera_final_location scene_py (0, 0, 0)%Q three_spheres).
    discriminate.
Defined.

Lemma holds_interpolation (t : Tunables) i spheres :
  forall f, Forall (fun k => kf_interpolation k = i) (holds t i f spheres).
Proof.
  induction spheres as [|s rest IH]; intros f; cbn [holds].
  - constructor.
  - repeat constructor. apply IH.
Qed.

(** X3.  Every keyframe [animate_camera] leaves on a new camera is set to
    Bezier interpolation; the run ends without a timeline only when there is
    no sphere, in which case the camera has no animation to read. *)
Theorem animate_camera_all_bezier (t : Tunables) (location : vec3)
    (spheres : list Sphere) :
  match animate_camera t (camera_add location) spheres with
  | Ok (camera, _) =>
      Forall (fun k => kf_interpolation k = BEZIER) (cam_keyframes camera)
  | Raise e => e = AttributeError /\ spheres = []
  end.
Proof.
  destruct spheres as [|s rest].
  - split; reflexivity.
  - rewrite animate_camera_fresh. cbn [cam_keyframes].
    apply holds_interpolation.
Qed.

Lemma holds_frames_range (t : Tunables) i spheres :
  0 <= FRAME_PAUSE t -> 0 <= FRAME_MOVE t ->
  forall f,
    Forall (fun g =>
              f <= g /\
              g + FRAME_MOVE t <=
                f + Z.of_nat (length spheres) * (FRAME_PAUSE t + FRAME_MOVE t))
      (map kf_frame (holds t i f spheres)).
Proof.
  intros Hp Hm.
  induction spheres as [|s rest IH]; intros f; cbn [holds map].
  - constructor.
  - pose proof (IH (f + FRAME_PAUSE t + FRAME_MOVE t)) as Hrest.
    change (length (s :: rest)) with (S (length rest)).
    rewrite Nat2Z.inj_succ.
    assert (Hn : 0 <= Z.of_nat (length rest) * (FRAME_PAUSE t + FRAME_MOVE t))
      by (apply Z.mul_nonneg_nonneg; lia).
    constructor; [cbn; lia|]. constructor; [cbn; lia|].
    eapply Forall_impl; [|exact Hrest]. cbn beta. intros g [H1 H2]. lia.
Qed.

(** X4.  When neither phase has a negative length, every keyframe lies
    between frame 1 and [scene.frame_end - FRAME_MOVE]: the animation fits
    the frame range the scene is given. *)
Theorem animate_camera_frames_in_range (t : Tunables) (location : vec3)
    (spheres : list Sphere) :
  0 <= FRAME_PAUSE t -> 0 <= FRAME_MOVE t ->
  match animate_camera t (camera_add location) spheres with
  | Ok (camera, frame_end) =>
      Forall (fun k => 1 <= kf_frame k <= frame_end - FRAME_MOVE t)
        (cam_keyframes camera)
  | Raise _ => spheres = []
  end.
Proof.
  intros Hp Hm. destruct spheres as [|s rest]; [reflexivity|].
  rewrite animate_camera_fresh. cbn [cam_keyframes].
  pose proof (holds_frames_range t BEZIER (s :: rest) Hp Hm 1) as H.
  rewrite Forall_map in H.
  eapply Forall_impl; [|exact H]. cbn beta. intros k [H1 H2]. lia.
Qed.

Lemma animate_camera_frames_in_range_witness :
  0 <= FRAME_PAUSE scene_py /\ 0 <= FRAME_MOVE scene_py /\
  match animate_camera scene_py (camera_add (0, 0, 0)%Q) three_spheres with
  | Ok (camera, frame_end) =>
      Forall (fun k => 1 <= kf_frame k <= frame_end - 36)
        (cam_keyframes camera)
  | Raise _ => three_spheres = []
  end.
Proof.
  assert (Hp : 0 <= FRAME_PAUSE scene_py) by discriminate.
  assert (Hm : 0 <= FRAME_MOVE scene_py) by discriminate.
  split; [exact Hp|]. split; [exact Hm|].
  exact (animate_camera_frames_in_range scene_py (0, 0, 0)%Q three_spheres
           Hp Hm).
Defined.

(** ** More on the layout *)

Local Open Scope Q_scope.

Lemma layout_from_app st (a b : list (string * Q)) :
  layout_from st (a ++ b) = layout_from (layout_from st a) b.
Proof. unfold layout_from. apply fold_left_app. Qed.

(** X5.  Items added at the end of the sequence leave the spheres laid out
    before them where they are: the layout of [a ++ b] starts with the layout
    of [a] and goes on with one sphere per item of [b]. *)
Theorem layout_app_prefix (a b : list (string * Q)) :
  exists more,
    layout (a ++ b) = layout a ++ more /\
    length more = length b /\
    firstn (length a) (layout (a ++ b)) = layout a.
Proof.
  unfold layout. rewrite layout_from_app.
  pose proof (layout_chain a) as Ha. unfold layout in Ha.
  destruct (layout_from (0, []) a) as [x spheres] eqn:E.
  cbn [snd] in Ha.
  rewrite layout_from_chain. cbn [snd].
  exists (chain (Py.last spheres) x b).
  split; [reflexivity|]. split; [apply chain_length|].
  assert (Hlen : length spheres = length a).
  { rewrite Ha. apply chain_length. }
  rewrite <- Hlen, firstn_app, Nat.sub_diag, firstn_all. cbn [firstn].
  now rewrite app_nil_r.
Qed.









(** ** More on the script *)

(** The running position the script ends with. *)
Lemma script_runs_x (t : Tunables) data max_value :
  data <> [] ->
  Py.max (map snd data) = Ok max_value ->
  max_value <> 0%Z ->
  exists scene,
    script t data = Ok scene /\
    scene_spheres scene = layout (map (scaled t max_value) data) /\
    scene_x_position scene =
      fst (layout_from (0, []) (map (scaled t max_value) data)) /\
    scene_frame_end scene =
      (1 + Z.of_nat (length data) * (FRAME_PAUSE t + FRAME_MOVE t))%Z.
Proof.
  intros Hne Hmax Hm. unfold script.
  rewrite Hmax. cbn [Py.bind].
  rewrite (for_items_layout t max_value data Hm). cbn [Py.bind].
  pose proof (layout_chain (map (scaled t max_value) data)) as Hlay.
  unfold layout in *.
  destruct (layout_from (0, []) (map (scaled t max_value) data))
    as [x spheres].
  cbn [fst snd] in *. subst spheres.
  destruct data as [|it rest]; [congruence|].
  cbn [map chain].
  cbn [create_camera Py.bind].
  rewrite animate_camera_fresh. cbn [Py.bind].
  eexists. split; [reflexivity|].
  cbn [scene_spheres scene_x_position scene_frame_end].
  split; [reflexivity|]. split; [reflexivity|].
  cbn [length]. rewrite chain_length, length_map. reflexivity.
Qed.

Lemma script_zero (t : Tunables) data :
  data <> [] ->
  Py.max (map snd data) = Ok 0%Z ->
  script t data = Raise ZeroDivisionError.
Proof.
  intros Hne Hmax. unfold script. rewrite Hmax. cbn [Py.bind].
  now rewrite for_items_zero.
Qed.



(** *** Sizes depend on ratios only *)

Lemma max_fold_times (k : Z) rest :
  (0 < k)%Z ->
  forall x,
    fold_left (fun m y => if (m <? y)%Z then y else m)
      (map (Z.mul k) rest) (k * x)%Z =
    (k * fold_left (fun m y => if (m <? y)%Z then y else m) rest x)%Z.
Proof.
  intros Hk. induction rest as [|y ys IH]; intros x; [reflexivity|].
  cbn [map fold_left].
  replace (k * x <? k * y)%Z with (x <? y)%Z.
  - destruct (x <? y)%Z; apply IH.
  - destruct (Z.ltb_spec x y), (Z.ltb_spec (k * x) (k * y));
      try reflexivity; nia.
Qed.

Lemma max_times (k : Z) data :
  (0 < k)%Z ->
  Py.max (map snd (times k data)) =
    match Py.max (map snd data) with
    | Ok m => Ok (k * m)%Z
    | Raise e => Raise e
    end.
Proof.
  intros Hk. unfold times. rewrite map_map. cbn [snd].
  rewrite <- (map_map snd (Z.mul k)).
  destruct (map snd data) as [|x rest]; [reflexivity|].
  cbn [map Py.max]. now rewrite max_fold_times.
Qed.

(** Equal names and scales give equal layouts. *)
Lemma chain_congruent items items' :
  Forall2 (fun a b => fst a = fst b /\ snd a == snd b) items items' ->
  forall p p' x x',
    x == x' ->
    match p, p' with
    | Some s, Some s' => radius s == radius s'
    | None, None => True
    | _, _ => False
    end ->
    Forall2 same_sphere (chain p x items) (chain p' x' items').
Proof.
  induction 1 as [|a b l l' [Hn Hs] _ IH]; intros p p' x x' Hx Hp;
    cbn [chain].
  - constructor.
  - assert (Hx' :
      match p with
      | Some s => x + (radius s + snd a + radius s)
      | None => x
      end ==
      match p' with
      | Some s => x' + (radius s + snd b + radius s)
      | None => x'
      end).
    { destruct p as [s|], p' as [s'|]; try contradiction.
      - rewrite Hx, Hp, Hs. reflexivity.
      - exact Hx. }
    constructor.
    + unfold same_sphere, radius, x_of.
      cbn [add_sphere sph_name sph_scale sph_location vx fst].
      auto.
    + apply IH; [exact Hx'|]. exact Hs.
Qed.

Lemma scaled_times (t : Tunables) (k m : Z) data :
  (0 < k)%Z -> m <> 0%Z ->
  Forall2 (fun a b => fst a = fst b /\ snd a == snd b)
    (map (scaled t m) data) (map (scaled t (k * m)) (times k data)).
Proof.
  intros Hk Hm. unfold times. rewrite map_map.
  induction data as [|it rest IH]; cbn [map]; constructor; [|exact IH].
  unfold scaled. cbn [fst snd]. split; [reflexivity|].
  rewrite !inject_Z_mult. field. split.
  - intros H. apply Hm. unfold Qeq in H. cbn in H. lia.
  - intros H. unfold Qeq in H. cbn in H. lia.
Qed.

(** X9.  The scene depends on the ratios of the values only: multiplying
    every value by the same positive integer gives the same error, or else
    spheres with the same names, scales and positions and the same final
    frame. *)
Theorem script_scale_invariant (t : Tunables) (k : Z)
    (data : list (string * Z)) :
  (0 < k)%Z ->
  match script t data, script t (times k data) with
  | Ok scene, Ok scene' =>
      Forall2 same_sphere (scene_spheres scene) (scene_spheres scene') /\
      scene_frame_end scene = scene_frame_end scene'
  | Raise e, Raise e' => e = e'
  | _, _ => False
  end.
Proof.
  intros Hk.
  destruct data as [|it rest] eqn:Hdata; [reflexivity|]. rewrite <- Hdata.
  assert (Hne : data <> []) by (rewrite Hdata; discriminate).
  assert (Hne' : times k data <> []) by (rewrite Hdata; discriminate).
  destruct (max_nonempty (snd it) (map snd rest)) as [m Hmax].
  change (snd it :: map snd rest) with (map snd (it :: rest)) in Hmax.
  rewrite <- Hdata in Hmax.
  pose proof (max_times k data Hk) as Hmax'. rewrite Hmax in Hmax'.
  destruct (Z.eq_dec m 0) as [->|Hm].
  - rewrite Z.mul_0_r in Hmax'.
    now rewrite (script_zero t data Hne Hmax),
                (script_zero t (times k data) Hne' Hmax').
  - destruct (script_runs t data m Hne Hmax Hm)
      as (scene & -> & Hs & _ & Hf).
    destruct (script_runs t (times k data) (k * m) Hne' Hmax' ltac:(nia))
      as (scene' & -> & Hs' & _ & Hf').
    split.
    + rewrite Hs, Hs', !layout_chain.
      apply chain_congruent;
        [apply scaled_times; assumption | reflexivity | exact I].
    + rewrite Hf, Hf'. unfold times. now rewrite length_map.
Qed.

Lemma script_scale_invariant_witness :
  (0 < 3)%Z /\
  match script scene_py abc_data, script scene_py (times 3 abc_data) with
  | Ok scene, Ok scene' =>
      Forall2 same_sphere (scene_spheres scene) (scene_spheres scene') /\
      scene_frame_end scene = scene_frame_end scene'
  | Raise e, Raise e' => e = e'
  | _, _ => False
  end.
Proof.
  assert (Hk : (0 < 3)%Z) by reflexivity.
  split; [exact Hk | exact (script_scale_invariant scene_py 3 abc_data Hk)].
Defined.

(** ** Background *)

Lemma inject_Z_eq0 (z : Z) : inject_Z z == 0 <-> z = 0%Z.
Proof.
  unfold Qeq. cbn. split; intros H; lia.
Qed.

(** X11.  [setup_background] fails, with [ZeroDivisionError], exactly when
    the image is zero pixels wide or high.  Otherwise the plane's scale is
    2.5 times [x_position] in x, has the proportions of the image in x and
    y, and is 1 in z; its centre is at 0.4 times its x scale in x, at
    [3 * x_position] in y and at 0.4 times its y scale in z. *)
Theorem setup_background_outcome (width height : Z) (x_position : Q) :
  match setup_background (width, height) x_position with
  | Ok plane =>
      width <> 0%Z /\ height <> 0%Z /\
      vx (pl_scale plane) == x_position * (5 # 2) /\
      vx (pl_scale plane) * inject_Z height
        == vy (pl_scale plane) * inject_Z width /\
      vz (pl_scale plane) = 1 /\
      vx (pl_location plane) == (4 # 10) * vx (pl_scale plane) /\
      vy (pl_location plane) == 3 * x_position /\
      vz (pl_location plane) == (4 # 10) * vy (pl_scale plane)
  | Raise e =>
      e = ZeroDivisionError /\ (width = 0%Z \/ height = 0%Z)
  end.
Proof.
  unfold setup_background, Py.truediv. cbn [fst snd].
  destruct (Z.eqb_spec height 0) as [->|Hh]; cbn [Py.bind].
  - split; [reflexivity | now right].
  - unfold float_truediv.
    destruct (Qeq_bool (inject_Z width / inject_Z height) 0) eqn:E;
      cbn [Py.bind].
    + split; [reflexivity|]. left.
      apply Qeq_bool_iff in E.
      destruct (Z.eq_dec width 0) as [|Hw]; [assumption|]. exfalso.
      assert (Hq : inject_Z width == 0).
      { rewrite <- (Qmult_div_r (inject_Z width) (inject_Z height)).
        - rewrite E. ring.
        - intros H. exact (Hh (proj1 (inject_Z_eq0 height) H)). }
      exact (Hw (proj1 (inject_Z_eq0 width) Hq)).
    + assert (Hw : width <> 0%Z).
      { intros ->. apply Qeq_bool_neq in E. apply E.
        unfold Qdiv. ring. }
      cbn [pl_scale pl_location vx vy vz fst snd].
      assert (Hw' : ~ inject_Z width == 0)
        by (intros H; exact (Hw (proj1 (inject_Z_eq0 width) H))).
      assert (Hh' : ~ inject_Z height == 0)
        by (intros H; exact (Hh (proj1 (inject_Z_eq0 height) H))).
      repeat split; try assumption; try reflexivity;
        try (field; auto); ring.
Qed.

Lemma setup_background_runs (width height : Z) (x_position : Q) :
  width <> 0%Z -> height <> 0%Z ->
  let plane_width := x_position * (25 # 10) in
  let plane_height := plane_width / (inject_Z width / inject_Z height) in
  setup_background (width, height) x_position =
    Ok {| pl_location :=
            (plane_width / 2 - plane_width * (1 # 10), x_position * 3,
             plane_height / 2 - plane_height * (1 # 10));
          pl_scale := (plane_width, plane_height, 1) |}.
Proof.
  intros Hw Hh. cbn zeta.
  unfold setup_background, Py.truediv. cbn [fst snd].
  destruct (Z.eqb_spec height 0) as [|_]; [contradiction|]. cbn [Py.bind].
  unfold float_truediv.
  destruct (Qeq_bool (inject_Z width / inject_Z height) 0) eqn:E;
    [|reflexivity].
  exfalso. apply Qeq_bool_iff in E.
  assert (Hq : inject_Z width == 0).
  { rewrite <- (Qmult_div_r (inject_Z width) (inject_Z height)).
    - rewrite E. ring.
    - intros H. exact (Hh (proj1 (inject_Z_eq0 height) H)). }
  exact (Hw (proj1 (inject_Z_eq0 width) Hq)).
Qed.

(** X12.  A dataset of a single item gives a scene of no extent: the script
    ends with [x_position = 0], and the background plane made from it has
    scale 0 in x and y and sits at the origin. *)
Theorem single_item_background (t : Tunables) (name : string) (value : Z)
    (width height : Z) :
  value <> 0%Z -> width <> 0%Z -> height <> 0%Z ->
  exists scene plane,
    script t [(name, value)] = Ok scene /\
    length (scene_spheres scene) = 1%nat /\
    scene_x_position scene = 0 /\
    setup_background (width, height) (scene_x_position scene) = Ok plane /\
    vx (pl_scale plane) == 0 /\ vy (pl_scale plane) == 0 /\
    vx (pl_location plane) == 0 /\ vy (pl_location plane) == 0 /\
    vz (pl_location plane) == 0.
Proof.
  intros Hv Hw Hh.
  destruct (script_runs_x t [(name, value)] value
              ltac:(discriminate) eq_refl Hv)
    as (scene & Hrun & Hs & Hx & _).
  cbn in Hx.
  exists scene. eexists. split; [exact Hrun|].
  split; [rewrite Hs; reflexivity|]. split; [exact Hx|].
  rewrite Hx. split; [apply (setup_background_runs width height 0 Hw Hh)|].
  cbn [pl_scale pl_location vx vy vz fst snd].
  assert (Hw' : ~ inject_Z width == 0)
    by (intros H; exact (Hw (proj1 (inject_Z_eq0 width) H))).
  assert (Hh' : ~ inject_Z height == 0)
    by (intros H; exact (Hh (proj1 (inject_Z_eq0 height) H))).
  repeat split; try (field; auto); ring.
Qed.

Lemma single_item_background_witness :
  2301%Z <> 0%Z /\ 1920%Z <> 0%Z /\ 1080%Z <> 0%Z /\
  exists scene plane,
    script scene_py [("Mail"%string, 2301%Z)] = Ok scene /\
    length (scene_spheres scene) = 1%nat /\
    scene_x_position scene = 0 /\
    setup_background (1920%Z, 1080%Z) (scene_x_position scene) = Ok plane /\
    vx (pl_scale plane) == 0 /\ vy (pl_scale plane) == 0 /\
    vx (pl_location plane) == 0 /\ vy (pl_location plane) == 0 /\
    vz (pl_location plane) == 0.
Proof.
  assert (H1 : 2301%Z <> 0%Z) by discriminate.
  assert (H2 : 1920%Z <> 0%Z) by discriminate.
  assert (H3 : 1080%Z <> 0%Z) by discriminate.
  split; [exact H1|]. split; [exact H2|]. split; [exact H3|].
  exact (single_item_background scene_py "Mail" 2301 1920 1080 H1 H2 H3).
Defined.

(** ** The loop in double precision *)

Local Open Scope Z_scope.

(** On the dataset of C9 no operation is rounded, and the loop gives the
    scales 1.0, 2.0, 0.5 and the positions 0.0, 4.0, 8.5. *)
Example binary64_abc :
  exists x_position a b c,
    Binary64.main_loop scene_py abc_data
      = Binary64.Ok (x_position, [a; b; c]) /\
    map Binary64.radius [a; b; c] =
      [S754_finite false (2 ^ 52) (-52); S754_finite false (2 ^ 52) (-51);
       S754_finite false (2 ^ 52) (-53)] /\
    map Binary64.x_of [a; b; c] =
      [Binary64.zero; S754_finite false (2 ^ 52) (-50);
       S754_finite false (17 * 2 ^ 48) (-49)] /\
    x_position = Binary64.x_of c.
Proof.
  do 4 eexists. split; [vm_compute; reflexivity|].
  repeat split; vm_compute; reflexivity.
Qed.

(** A quotient too large for a float stops the loop. *)
Example binary64_overflow :
  Binary64.main_loop scene_py [("A", - 10 ^ 400); ("B", 1)]%string
    = Binary64.Raise Binary64.OverflowError.
Proof. vm_compute. reflexivity. Qed.

Lemma binary64_truediv_outcome (a b : Z) :
  b <> 0 ->
  (exists q, Binary64.truediv a b = Binary64.Ok q) \/
  Binary64.truediv a b = Binary64.Raise Binary64.OverflowError.
Proof.
  intros Hb. unfold Binary64.truediv.
  destruct (Z.eqb_spec b 0) as [|_]; [contradiction|].
  unfold Binary64.finite_or_overflow.
  destruct (SFdiv _ _ _ _); eauto.
Qed.

Lemma binary64_of_int_outcome (z : Z) :
  (exists f, Binary64.of_int z = Binary64.Ok f) \/
  Binary64.of_int z = Binary64.Raise Binary64.OverflowError.
Proof.
  unfold Binary64.of_int, Binary64.finite_or_overflow.
  destruct (binary_normalize _ _ _ _ _); eauto.
Qed.

(** With a divisor other than zero the loop either names one sphere after
    each item or stops on an overflow. *)
Lemma binary64_for_items (t : Tunables) (max_value : Z) items :
  max_value <> 0 ->
  forall st,
    match Binary64.for_items t max_value items st with
    | Binary64.Ok st' =>
        map Binary64.sph_name (snd st') =
          map Binary64.sph_name (snd st) ++ map fst items
    | Binary64.Raise e =>
        e = Binary64.OverflowError /\
        (Binary64.of_int (SCALE_FACTOR t)
           = Binary64.Raise Binary64.OverflowError \/
         Exists (fun it => Binary64.truediv (snd it) max_value
                           = Binary64.Raise Binary64.OverflowError) items)
    end.
Proof.
  intros Hm. induction items as [|[name value] rest IH]; intros st.
  - cbn. now rewrite app_nil_r.
  - cbn [Binary64.for_items].
    destruct (binary64_truediv_outcome value max_value Hm) as [[q Hq]|Hq];
      rewrite Hq.
    2:{ split; [reflexivity|]. right. constructor. exact Hq. }
    destruct (binary64_of_int_outcome (SCALE_FACTOR t)) as [[f Hf]|Hf];
      rewrite Hf.
    2:{ split; [reflexivity|]. now left. }
    specialize (IH (Binary64.place st name (Binary64.mul q f))).
    destruct (Binary64.for_items t max_value rest _) as [st'|e].
    + rewrite IH. destruct st as [x spheres].
      unfold Binary64.place. cbn [snd map fst].
      rewrite map_app, <- app_assoc. reflexivity.
    + destruct IH as [-> [H|H]]; (split; [reflexivity|]).
      * rewrite Hf in H. discriminate.
      * right. constructor 2. exact H.
Qed.

Lemma binary64_for_items_zero (t : Tunables) items st :
  items <> [] ->
  Binary64.for_items t 0 items st
    = Binary64.Raise Binary64.ZeroDivisionError.
Proof. destruct items as [|[name value] rest]; [congruence | reflexivity]. Qed.

(** X7.  In double precision the arithmetic of the sizing and placement
    loop ends in one of four ways.  It raises [ValueError] on an empty
    dataset and [ZeroDivisionError] when the largest value is zero; otherwise
    it either makes one sphere per item, named after the items in order, or
    raises [OverflowError] because [SCALE_FACTOR] or one of the quotients
    [value / max_value] is too large for a float. *)
Theorem binary64_main_loop_outcomes (t : Tunables)
    (data : list (string * Z)) :
  match Binary64.main_loop t data with
  | Binary64.Ok (_, spheres) =>
      (exists m, Py.max (map snd data) = Ok m /\ m <> 0) /\
      map Binary64.sph_name spheres = map fst data
  | Binary64.Raise Binary64.ValueError => data = []
  | Binary64.Raise Binary64.ZeroDivisionError =>
      data <> [] /\ Py.max (map snd data) = Ok 0
  | Binary64.Raise Binary64.OverflowError =>
      exists m,
        Py.max (map snd data) = Ok m /\ m <> 0 /\
        (Binary64.of_int (SCALE_FACTOR t)
           = Binary64.Raise Binary64.OverflowError \/
         Exists (fun it => Binary64.truediv (snd it) m
                           = Binary64.Raise Binary64.OverflowError) data)
  end.
Proof.
  unfold Binary64.main_loop, Binary64.max.
  destruct data as [|it rest] eqn:Hdata; [reflexivity|]. rewrite <- Hdata.
  destruct (max_nonempty (snd it) (map snd rest)) as [m Hmax].
  change (snd it :: map snd rest) with (map snd (it :: rest)) in Hmax.
  rewrite <- Hdata in Hmax. rewrite Hmax.
  destruct (Z.eq_dec m 0) as [->|Hm].
  - rewrite (binary64_for_items_zero t data); [|rewrite Hdata; discriminate].
    split; [rewrite Hdata; discriminate | reflexivity].
  - pose proof (binary64_for_items t m data Hm (Binary64.zero, [])) as H.
    destruct (Binary64.for_items t m data _) as [[x spheres]|e].
    + cbn [snd map app] in H. split; [now exists m | exact H].
    + destruct H as [-> H]. exists m. auto.
Qed.
